(** * convert_image_to_rgb10.py: 8-bit RGB image to CDI 10-bit RGB

    A shallow embedding of [src/tools/convert_image_to_rgb10.py] and the
    properties of its packed output.

    The script is forty lines of Python on top of two libraries.  Their
    behaviour, as far as the script uses it, is modelled first:

    - [bitstring]: [Bits(uint=v, length=n)], [BitArray(bytes)],
      [BitArray.append] and the [bytes] property;
    - [PIL]: an image already converted to mode RGB, with [size] and the
      pixel access object returned by [load()].

    Then come the exceptions and the world (file system, standard output)
    that [main] runs in, the two nested loops, and [main] itself.  The
    import guard of lines 12-17 is part of [script], the script run as a
    program; everything about [main] and the loops is about [main()] with
    both libraries installed. *)

From Stdlib Require Import ZArith Lia.
From stdpp Require Import gmap strings list pretty.

Local Open Scope Z_scope.

(** ** Exceptions and results *)

(** The Python exceptions that can reach the top level of the script. *)
Inductive exception : Type :=
  | SystemExit (code : Z)      (* sys.exit(code) *)
  | IndexError                 (* sequence or pixel index out of range *)
  | FileNotFoundError          (* Image.open on a missing file *)
  | UnidentifiedImageError     (* Image.open on bytes PIL cannot decode *)
  | PermissionError            (* open(path, "wb") refused *)
  | CreationError              (* bitstring: value does not fit the length *)
  | InterpretError.            (* bitstring: no unambiguous interpretation *)

(** A computation that returns a value or raises. *)
Definition result (A : Type) : Type := exception + A.

Definition raise {A : Type} (e : exception) : result A := inl e.

#[global] Instance result_ret : MRet result := fun A x => inr x.
#[global] Instance result_bind : MBind result :=
  fun A B f m => match m with inl e => inl e | inr x => f x end.

(** ** The part of [bitstring] the script uses *)
Module bitstring.

(** A bitstring is its bits, first (most significant) bit first. *)
Definition BitArray : Type := list bool.

(** The [n] low bits of [v], most significant first. *)
Fixpoint uint_bits (n : nat) (v : Z) : list bool :=
  match n with
  | O => []
  | S k => Z.testbit v (Z.of_nat k) :: uint_bits k v
  end.

(** [Bits(uint=v, length=n)]: the unsigned big-endian representation of
    [v] on [n] bits.  A negative [v], or one that needs more than [n]
    bits, raises [CreationError]. *)
Definition Bits (uint : Z) (length : nat) : result BitArray :=
  if (uint <? 0) || (2 ^ Z.of_nat length <=? uint)
  then raise CreationError
  else mret (uint_bits length uint).

(** The [uint] interpretation of a bitstring (most significant first). *)
Definition uint (bits : BitArray) : Z :=
  fold_left (fun acc (b : bool) => 2 * acc + (if b then 1 else 0)) bits 0.

(** The eight bits of a byte, most significant first. *)
Definition byte_bits (b : Byte.byte) : list bool :=
  let '(b0, (b1, (b2, (b3, (b4, (b5, (b6, b7))))))) := Byte.to_bits b in
  [b7; b6; b5; b4; b3; b2; b1; b0].

(** [BitArray(data)] for a bytes object [data]. *)
Definition of_bytes (data : list Byte.byte) : BitArray :=
  flat_map byte_bits data.

(** [buffer.append(bits)]; the script's buffer is mutated in place, here
    the new contents are returned. *)
Definition append (buffer bits : BitArray) : BitArray := buffer ++ bits.

(** Whole bytes of a bitstring, eight bits at a time. *)
Fixpoint to_bytes (bits : BitArray) : list Byte.byte :=
  match bits with
  | b7 :: b6 :: b5 :: b4 :: b3 :: b2 :: b1 :: b0 :: rest =>
      Byte.of_bits (b0, (b1, (b2, (b3, (b4, (b5, (b6, b7)))))))
      :: to_bytes rest
  | _ => []
  end.

(** The [bytes] property: the bitstring as a bytes object.  It raises
    [InterpretError] when the length is not a multiple of eight (the
    padding variant of the library is the method [tobytes()], which the
    script does not call). *)
Definition bytes (bits : BitArray) : result (list Byte.byte) :=
  if Z.of_nat (length bits) mod 8 =? 0
  then mret (to_bytes bits)
  else raise InterpretError.

End bitstring.

(** ** The part of [PIL] the script uses *)
Module PIL.

(** A pixel of a mode-RGB image: the tuple [(R, G, B)]. *)
Definition Pixel : Type := (Z * Z * Z)%type.

(** An image after [convert("RGB")]: [size] is [(width, height)] and
    [data] gives the pixel at column [x] and row [y]. *)
Record Image : Type := {
  size : nat * nat;
  data : nat -> nat -> Pixel
}.

Definition width (image : Image) : nat := fst (size image).
Definition height (image : Image) : nat := snd (size image).

(** [image.load()[x, y]]: [IndexError] outside the image. *)
Definition getpixel (image : Image) (x y : nat) : result Pixel :=
  if (x <? width image)%nat && (y <? height image)%nat
  then mret (data image x y)
  else raise IndexError.

(** What mode RGB promises: every channel is an 8-bit value. *)
Definition channel_ok (c : Z) : Prop := 0 <= c <= 255.

Definition pixel_ok (p : Pixel) : Prop :=
  channel_ok p.1.1 /\ channel_ok p.1.2 /\ channel_ok p.2.

#[global] Instance channel_ok_dec (c : Z) : Decision (channel_ok c).
Proof. unfold channel_ok. apply _. Defined.

#[global] Instance pixel_ok_dec (p : Pixel) : Decision (pixel_ok p).
Proof. unfold pixel_ok. apply _. Defined.

Definition image_ok (image : Image) : Prop :=
  forall x y : nat,
    (x < width image)%nat -> (y < height image)%nat ->
    pixel_ok (data image x y).

End PIL.

Import bitstring PIL.

(** ** The world [main] runs in *)

(** The file system (contents by path, and which paths may be opened for
    writing), the image decoder behind [Image.open(..).convert("RGB")], the
    lines printed so far, and the paths of the files opened so far. *)
Record World : Type := {
  fs : gmap string (list Byte.byte);
  writable : string -> bool;
  decode : list Byte.byte -> option Image;
  stdout : list string;
  opened_files : list string
}.

(** A statement of the script: it changes the world and returns or raises. *)
Definition M (A : Type) : Type := World -> World * result A.

#[global] Instance M_ret : MRet M := fun A x w => (w, inr x).
#[global] Instance M_bind : MBind M :=
  fun A B f m w =>
    match m w with
    | (w', inl e) => (w', inl e)
    | (w', inr x) => f x w'
    end.

(** A pure step (one that can only return or raise) inside a statement. *)
Definition lift {A : Type} (r : result A) : M A := fun w => (w, r).

(** The ways a statement changes the world. *)
Definition set_fs (f : gmap string (list Byte.byte)) (w : World) : World :=
  {| fs := f; writable := writable w; decode := decode w;
     stdout := stdout w; opened_files := opened_files w |}.

Definition add_stdout (lines : list string) (w : World) : World :=
  {| fs := fs w; writable := writable w; decode := decode w;
     stdout := stdout w ++ lines; opened_files := opened_files w |}.

Definition add_opened (paths : list string) (w : World) : World :=
  {| fs := fs w; writable := writable w; decode := decode w;
     stdout := stdout w; opened_files := opened_files w ++ paths |}.

(** [print(line)] *)
Definition print (line : string) : M unit :=
  fun w => (add_stdout [line] w, inr tt).

(** [sys.exit(code)] *)
Definition sys_exit {A : Type} (code : Z) : M A := lift (raise (SystemExit code)).

(** [Image.open(path).convert("RGB")].  A path with no file raises
    [FileNotFoundError]; contents that cannot be decoded raise, and
    [UnidentifiedImageError] stands here for whichever exception the
    decoder raises. *)
Definition Image_open_convert_RGB (path : string) : M Image :=
  fun w =>
    match fs w !! path with
    | None => (w, raise FileNotFoundError)
    | Some contents =>
        match decode w contents with
        | None => (add_opened [path] w, raise UnidentifiedImageError)
        | Some image => (add_opened [path] w, inr image)
        end
    end.

(** [open(path, "wb")]: the file is created, or truncated if it exists.
    A path that cannot be opened for writing raises, and [PermissionError]
    stands here for whichever exception [open] raises. *)
Definition open_wb (path : string) : M unit :=
  fun w =>
    if writable w path
    then (add_opened [path] (set_fs (<[path := []]> (fs w)) w), inr tt)
    else (w, raise PermissionError).

(** [output_file.write(contents)] on the file opened at [path]; like
    [print], it is taken to succeed. *)
Definition write (path : string) (contents : list Byte.byte) : M unit :=
  fun w =>
    (set_fs (alter (fun old => old ++ contents) path (fs w)) w, inr tt).

(** [seq[i]] on a Python list. *)
Definition getitem {A : Type} (l : list A) (i : nat) : result A :=
  match l !! i with
  | Some x => mret x
  | None => raise IndexError
  end.

(** [for i in range(n): s = body(i, s)], stopping at the first exception. *)
Fixpoint for_in {S : Type} (xs : list nat) (body : nat -> S -> result S)
    (s : S) : result S :=
  match xs with
  | [] => mret s
  | i :: rest => s' ← body i s; for_in rest body s'
  end.

Definition for_range {S : Type} (n : nat) (body : nat -> S -> result S)
    (s : S) : result S :=
  for_in (seq 0 n) body s.

(** ** The script *)

(** Lines 37-48: the body of the inner loop, for the pixel at [(x, y)]. *)
Definition pixel_body (image : Image) (y x : nat) (buffer : BitArray)
    : result BitArray :=
  pixel ← getpixel image x y;
  r ← Bits (pixel.1.1 * 4) 10;
  let buffer := append buffer r in
  g ← Bits (pixel.1.2 * 4) 10;
  let buffer := append buffer g in
  b ← Bits (pixel.2 * 4) 10;
  let buffer := append buffer b in
  mret buffer.

(** Lines 36-48: [for x in range(image.size[0])]. *)
Definition row_loop (image : Image) (y : nat) (buffer : BitArray)
    : result BitArray :=
  for_range (size image).1 (pixel_body image y) buffer.

(** Lines 35-48: [for y in range(image.size[1])]. *)
Definition grid_loop (image : Image) (buffer : BitArray) : result BitArray :=
  for_range (size image).2 (row_loop image) buffer.

(** How an f-string shows [image.size], a tuple of two integers. *)
Definition show_size (sz : nat * nat) : string :=
  "(" +:+ pretty sz.1 +:+ ", " +:+ pretty sz.2 +:+ ")".

(** Lines 19-51. *)
Definition main (argv : list string) : M unit :=
  (if negb (length argv =? 3)%nat then
     prog ← lift (getitem argv 0);
     print ("Usage: " +:+ prog +:+ " INPUT_FILE OUTPUT_FILE");;
     print "Converts an image to CDI 10-bit RGB format.";;
     sys_exit 1
   else mret tt);;
  input_path ← lift (getitem argv 1);
  output_path ← lift (getitem argv 2);
  image ← Image_open_convert_RGB input_path;
  print ("Input image size is " +:+ show_size (size image) +:+ " bytes.");;
  let buffer := of_bytes [] in
  open_wb output_path;;
  buffer ← lift (grid_loop image buffer);
  contents ← lift (bytes buffer);
  print ("Output image size is " +:+ pretty (length contents) +:+ " bytes.");;
  contents ← lift (bytes buffer);
  write output_path contents.

(** The exit status of the interpreter after [main()], when standard
    output can be flushed at exit. *)
Definition exit_code (r : result unit) : Z :=
  match r with
  | inr _ => 0
  | inl (SystemExit code) => code
  | inl _ => 1
  end.

(** The bytes [main] has at lines 50-51: the buffer after the loops of
    lines 32-48, through the [bytes] property. *)
Definition pack (image : Image) : result (list Byte.byte) :=
  buffer ← grid_loop image (of_bytes []);
  bytes buffer.

(** What [main] leaves behind once the image is decoded and the output
    file is open: both files opened, the first status line printed, and
    the output file truncated. *)
Definition opened (image : Image) (input_path output_path : string)
    (w : World) : World :=
  set_fs (<[output_path := []]> (fs w))
    (add_opened [input_path; output_path]
       (add_stdout
          ["Input image size is " +:+ show_size (size image) +:+ " bytes."]
          w)).

(** The world after a run that reached the end of [main]. *)
Definition written (image : Image) (input_path output_path : string)
    (contents : list Byte.byte) (w : World) : World :=
  set_fs (<[output_path := contents]> (fs w))
    (add_opened [input_path; output_path]
       (add_stdout
          ["Input image size is " +:+ show_size (size image) +:+ " bytes.";
           "Output image size is " +:+ pretty (length contents) +:+ " bytes."]
          w)).

(** A world in which [main] can decode [image] from its first argument and
    open its second argument for writing. *)
Definition ready (input_path output_path : string) (image : Image)
    (w : World) : Prop :=
  (exists contents : list Byte.byte,
      fs w !! input_path = Some contents /\ decode w contents = Some image)
  /\ writable w output_path = true.

(** The world after the usage message. *)
Definition usage_shown (prog : string) (w : World) : World :=
  add_stdout
    ["Usage: " +:+ prog +:+ " INPUT_FILE OUTPUT_FILE";
     "Converts an image to CDI 10-bit RGB format."] w.

(** ** The format, in the words of the specification *)

(** A channel scaled to ten bits, as a field of the stream. *)
Definition sample10 (c : Z) : BitArray := uint_bits 10 (c * 4).

(** The thirty bits of a pixel: R, then G, then B. *)
Definition pixel_bits (p : Pixel) : BitArray :=
  sample10 p.1.1 ++ sample10 p.1.2 ++ sample10 p.2.

(** The packed bitstream: the pixels of each row from left to right, the
    rows from top to bottom, nothing in between. *)
Definition packed_bitstream (image : Image) : BitArray :=
  flat_map
    (fun y => flat_map (fun x => pixel_bits (data image x y))
                (seq 0 (width image)))
    (seq 0 (height image)).

(** The [len] bits of a stream that start at bit offset [off]. *)
Definition bits_at (off len : nat) (bits : BitArray) : BitArray :=
  take len (drop off bits).

(** The row-major index of the pixel at column [x] of row [y]. *)
Definition row_major (image : Image) (x y : nat) : nat :=
  (y * width image + x)%nat.

(** [ceil(a / b)] for a positive [b]. *)
Definition ceil_div (a b : Z) : Z := (a + b - 1) / b.

(** Two images with the same pixels: equal sizes, and equal data at every
    coordinate inside them. *)
Definition same_pixels (image1 image2 : Image) : Prop :=
  size image1 = size image2 /\
  forall x y : nat,
    (x < width image1)%nat -> (y < height image1)%nat ->
    data image1 x y = data image2 x y.

(** The channels of a pixel by position: 0 is R, 1 is G, anything else
    is B. *)
Definition channel (k : nat) (p : Pixel) : Z :=
  match k with
  | O => p.1.1
  | S O => p.1.2
  | _ => p.2
  end.

(** The sample read from a buffer at the place of channel [k] of the pixel
    at column [x] of row [y]: the ten bits at offset [30 * N + 10 * k],
    most significant first, where [N] is the row-major index. *)
Definition placed_sample (image : Image) (buffer : BitArray)
    (x y k : nat) : Z :=
  uint (bits_at (30 * row_major image x y + 10 * k) 10 buffer).

(** ** Sample inputs *)

(** The 1x1 image whose pixel has the value [c] in each channel. *)
Definition gray (c : Z) : Image :=
  {| size := (1%nat, 1%nat); data := fun _ _ => (c, c, c) |}.

(** The 1x1 image whose pixel is (255, 128, 0). *)
Definition single_pixel : Image :=
  {| size := (1%nat, 1%nat); data := fun _ _ => (255, 128, 0) |}.

(** A 2x2 image; each pixel differs from the others. *)
Definition two_by_two : Image :=
  {| size := (2%nat, 2%nat);
     data := fun x y => (Z.of_nat x * 255, 128, Z.of_nat y * 17) |}.

(** The same 2x2 image, with other values outside its two rows and
    columns. *)
Definition two_by_two_framed : Image :=
  {| size := (2%nat, 2%nat);
     data := fun x y =>
       if (x <? 2)%nat && (y <? 2)%nat
       then (Z.of_nat x * 255, 128, Z.of_nat y * 17)
       else (7, 7, 7) |}.

(** A 2x2 image with the red channel of its last pixel out of range. *)
Definition bad_red : Image :=
  {| size := (2%nat, 2%nat);
     data := fun x y => (Z.of_nat (x + y) * 128, 0, 0) |}.

(** An image three pixels wide and no rows. *)
Definition no_rows : Image :=
  {| size := (3%nat, 0%nat); data := fun _ _ => (0, 0, 0) |}.

(** A world that holds one input file, decoded into [image], where every
    path is writable and nothing has been printed. *)
Definition world_with (image : Image) : World :=
  {| fs := {[ "in.png" := [] ]};
     writable := fun _ => true;
     decode := fun _ => Some image;
     stdout := [];
     opened_files := [] |}.

(** ** The script as a program *)

(** The text of line 16, with its final newline. *)
Definition missing_dependencies : string :=
  "Error: Missing dependencies: run 'pip3 install Pillow bitstring'"
  +:+ String (Ascii.ascii_of_nat 10) EmptyString.

(** Lines 10-17 and 53-54: the script run as a program.  [has_PIL] and
    [has_bitstring] say whether the two imports of lines 13-14 succeed; if
    one raises [ImportError] the message goes to standard error and the
    script exits with status 1, otherwise [main()] runs.  The result is
    the text written to standard error and the run of [main]. *)
Definition script (has_PIL has_bitstring : bool) (argv : list string)
    (w : World) : string * (World * result unit) :=
  if has_PIL && has_bitstring
  then (EmptyString, main argv w)
  else (missing_dependencies, (w, raise (SystemExit 1))).

(** ** Reading the output back *)

(** The [k]-th 10-bit field of an output file, as an unsigned integer. *)
Definition sample_at (contents : list Byte.byte) (k : nat) : Z :=
  uint (bits_at (10 * k) 10 (of_bytes contents)).

(** The pixel with row-major index [N] of an output file, scaled back to
    eight bits. *)
Definition pixel_at (contents : list Byte.byte) (N : nat) : Pixel :=
  (sample_at contents (3 * N) / 4,
   sample_at contents (3 * N + 1) / 4,
   sample_at contents (3 * N + 2) / 4).

(** Two images with the same pixels in row-major order, whatever their
    shapes. *)
Definition same_sequence (image1 image2 : Image) : Prop :=
  (width image1 * height image1 = width image2 * height image2)%nat
  /\ forall N : nat,
       (N < width image1 * height image1)%nat ->
       data image1 (N mod width image1) (N / width image1)
       = data image2 (N mod width image2) (N / width image2).

(** The pixels of [two_by_two] in a single row. *)
Definition four_by_one : Image :=
  {| size := (4%nat, 1%nat);
     data := fun x _ =>
       (Z.of_nat (x mod 2) * 255, 128, Z.of_nat (x / 2) * 17) |}.


(** A world whose output path cannot be opened for writing. *)
Definition world_read_only : World :=
  {| fs := {[ "in.png" := [] ]};
     writable := fun _ => false;
     decode := fun _ => Some two_by_two;
     stdout := [];
     opened_files := [] |}.

(** ** Bit fields *)

Section bit_fields.

Lemma uint_bits_length (n : nat) (v : Z) : length (uint_bits n v) = n.
Proof. induction n as [|n IH]; simpl; [reflexivity | now rewrite IH]. Qed.

(** Reading a bit string that continues an accumulator [acc]. *)
Lemma uint_fold (bits : BitArray) (acc : Z) :
  fold_left (fun a (b : bool) => 2 * a + (if b then 1 else 0)) bits acc
  = acc * 2 ^ Z.of_nat (length bits) + uint bits.
Proof.
  unfold uint. revert acc.
  induction bits as [|b bits IH]; intros acc.
  - simpl. lia.
  - cbn [fold_left length]. rewrite IH, (IH (2 * 0 + _)).
    rewrite Nat2Z.inj_succ, Z.pow_succ_r by lia. ring.
Qed.

Lemma uint_cons (b : bool) (bits : BitArray) :
  uint (b :: bits) = Z.b2z b * 2 ^ Z.of_nat (length bits) + uint bits.
Proof.
  unfold uint at 1. cbn [fold_left]. rewrite uint_fold.
  destruct b; simpl Z.b2z; lia.
Qed.

(** [Bits] keeps the value modulo [2 ^ n]... *)
Lemma uint_uint_bits_mod (n : nat) (v : Z) :
  uint (uint_bits n v) = v mod 2 ^ Z.of_nat n.
Proof.
  induction n as [|n IH].
  - simpl. now rewrite Z.mod_1_r.
  - cbn [uint_bits]. rewrite uint_cons, uint_bits_length, IH.
    rewrite Nat2Z.inj_succ, Z.pow_succ_r by lia.
    rewrite (Z.mul_comm 2), Z.rem_mul_r by lia.
    rewrite Z.testbit_spec' by lia. lia.
Qed.

(** ...so a value in range is read back unchanged. *)
Lemma uint_uint_bits (n : nat) (v : Z) :
  0 <= v < 2 ^ Z.of_nat n -> uint (uint_bits n v) = v.
Proof. intros Hv. rewrite uint_uint_bits_mod. now apply Z.mod_small. Qed.

Lemma Bits_in_range (v : Z) (n : nat) :
  0 <= v < 2 ^ Z.of_nat n -> Bits v n = inr (uint_bits n v).
Proof.
  intros Hv. unfold Bits.
  destruct (Z.ltb_spec v 0); [lia|].
  destruct (Z.leb_spec (2 ^ Z.of_nat n) v); [lia|]. reflexivity.
Qed.

Lemma Bits_out_of_range (v : Z) (n : nat) :
  ~ 0 <= v < 2 ^ Z.of_nat n -> Bits v n = inl CreationError.
Proof.
  intros Hv. unfold Bits.
  destruct (Z.ltb_spec v 0); [reflexivity|].
  destruct (Z.leb_spec (2 ^ Z.of_nat n) v); [reflexivity | lia].
Qed.

Lemma sample10_length (c : Z) : length (sample10 c) = 10%nat.
Proof. apply uint_bits_length. Qed.

Lemma sample10_uint (c : Z) : channel_ok c -> uint (sample10 c) = c * 4.
Proof.
  intros Hc. unfold channel_ok in Hc. apply uint_uint_bits.
  change (2 ^ Z.of_nat 10) with 1024. lia.
Qed.

Lemma Bits_channel (c : Z) :
  channel_ok c -> Bits (c * 4) 10 = inr (sample10 c).
Proof.
  intros Hc. unfold channel_ok in Hc. apply Bits_in_range.
  change (2 ^ Z.of_nat 10) with 1024. lia.
Qed.

Lemma Bits_bad_channel (c : Z) :
  ~ channel_ok c -> Bits (c * 4) 10 = inl CreationError.
Proof.
  intros Hc. unfold channel_ok in Hc. apply Bits_out_of_range.
  change (2 ^ Z.of_nat 10) with 1024. lia.
Qed.

Lemma pixel_bits_length (p : Pixel) : length (pixel_bits p) = 30%nat.
Proof.
  unfold pixel_bits. now rewrite !length_app, !sample10_length.
Qed.

End bit_fields.

(** ** Bits and bytes *)

Section bytes.

Lemma byte_bits_of_bits (b0 b1 b2 b3 b4 b5 b6 b7 : bool) :
  byte_bits (Byte.of_bits (b0, (b1, (b2, (b3, (b4, (b5, (b6, b7))))))))
  = [b7; b6; b5; b4; b3; b2; b1; b0].
Proof. unfold byte_bits. now rewrite Byte.to_bits_of_bits. Qed.

(** A bit string of [8 * n] bits is [n] bytes, and those bytes hold
    exactly its bits. *)
Lemma to_bytes_whole (n : nat) (bits : BitArray) :
  length bits = (8 * n)%nat ->
  length (to_bytes bits) = n /\ of_bytes (to_bytes bits) = bits.
Proof.
  revert bits. induction n as [|n IH]; intros bits Hlen.
  - destruct bits; [now split | discriminate].
  - do 8 (destruct bits as [|? bits]; [simpl in Hlen; lia |]).
    destruct (IH bits) as [Hn Hbits]; [simpl in Hlen; lia |].
    cbn [to_bytes length of_bytes flat_map]. fold (of_bytes (to_bytes bits)).
    rewrite byte_bits_of_bits, Hn, Hbits. now split.
Qed.

Lemma bytes_whole (bits : BitArray) :
  Z.of_nat (length bits) mod 8 = 0 ->
  bytes bits = inr (to_bytes bits)
  /\ Z.of_nat (length (to_bytes bits)) * 8 = Z.of_nat (length bits)
  /\ of_bytes (to_bytes bits) = bits.
Proof.
  intros Hmod. unfold bytes. rewrite Hmod. cbn [Z.eqb].
  apply Z.mod_divide in Hmod; [|lia]. destruct Hmod as [q Hq].
  destruct (to_bytes_whole (Z.to_nat q) bits) as [Hn Hbits]; [lia|].
  repeat split; [lia | exact Hbits].
Qed.

Lemma bytes_partial (bits : BitArray) :
  Z.of_nat (length bits) mod 8 <> 0 -> bytes bits = inl InterpretError.
Proof.
  intros Hmod. unfold bytes.
  destruct (Z.eqb_spec (Z.of_nat (length bits) mod 8) 0); [lia | reflexivity].
Qed.

(** [ceil_div a b] is the least [q] with [a <= q * b]. *)
Lemma ceil_div_least (a b : Z) :
  0 < b ->
  a <= ceil_div a b * b /\ forall q : Z, a <= q * b -> ceil_div a b <= q.
Proof.
  intros Hb. unfold ceil_div. split.
  - pose proof (Z.mul_div_le (a + b - 1) b Hb).
    pose proof (Z.mod_pos_bound (a + b - 1) b Hb).
    pose proof (Z.div_mod (a + b - 1) b). lia.
  - intros q Hq. apply Z.lt_succ_r, Z.div_lt_upper_bound; lia.
Qed.

End bytes.

(** ** Loops *)

Section loops.

Context {S : Type}.
Implicit Types (body : nat -> S -> result S) (xs : list nat).

(** A loop only looks at its body on the indices it visits. *)
Lemma for_in_ext body1 body2 xs (s : S) :
  (forall i s', In i xs -> body1 i s' = body2 i s') ->
  for_in xs body1 s = for_in xs body2 s.
Proof.
  revert s. induction xs as [|i xs IH]; intros s Hext; [reflexivity|].
  cbn [for_in]. rewrite (Hext i s) by now left.
  destruct (body2 i s) as [e|s']; [reflexivity|].
  cbn. apply IH. intros j s'' Hj. apply Hext. now right.
Qed.

(** If each iteration returns or raises [e], and one of them raises [e]
    whatever the state, the loop raises [e]. *)
Lemma for_in_raises body xs (e : exception) :
  (forall i s, In i xs -> body i s = inl e \/ exists s', body i s = inr s') ->
  (exists i, In i xs /\ forall s, body i s = inl e) ->
  forall s, for_in xs body s = inl e.
Proof.
  induction xs as [|i xs IH]; intros Hall [k [Hk Hraise]] s.
  - destruct Hk.
  - cbn [for_in].
    destruct (Hall i s) as [He | [s' Hs']]; [now left | now rewrite He |].
    rewrite Hs'. cbn.
    destruct Hk as [<- | Hk]; [rewrite Hraise in Hs'; discriminate |].
    apply IH; [|now exists k].
    intros j s'' Hj. apply Hall. now right.
Qed.

(** If each iteration returns or raises [e], so does the loop. *)
Lemma for_in_returns_or_raises body xs (e : exception) :
  (forall i s, In i xs -> body i s = inl e \/ exists s', body i s = inr s') ->
  forall s, for_in xs body s = inl e \/ exists s', for_in xs body s = inr s'.
Proof.
  induction xs as [|i xs IH]; intros Hall s.
  - right. now exists s.
  - cbn [for_in].
    destruct (Hall i s) as [He | [s' Hs']]; [now left | | ].
    + left. now rewrite He.
    + rewrite Hs'. cbn. apply IH. intros j s'' Hj. apply Hall. now right.
Qed.

End loops.

(** A loop whose iterations each append a block to the buffer appends the
    blocks in order. *)
Lemma for_in_appends (body : nat -> BitArray -> result BitArray)
    (block : nat -> BitArray) (xs : list nat) (buffer : BitArray) :
  (forall i s, In i xs -> body i s = inr (s ++ block i)) ->
  for_in xs body buffer = inr (buffer ++ flat_map block xs).
Proof.
  revert buffer. induction xs as [|i xs IH]; intros buffer Hbody.
  - cbn. now rewrite app_nil_r.
  - cbn [for_in flat_map]. rewrite Hbody by now left. cbn.
    rewrite IH, app_assoc; [reflexivity|].
    intros j s Hj. apply Hbody. now right.
Qed.

(** A loop whose iterations each add [k] bits has added [k] bits per
    index when it returns. *)
Lemma for_in_length (body : nat -> BitArray -> result BitArray)
    (xs : list nat) (k : nat) (buffer buffer' : BitArray) :
  (forall i s s', body i s = inr s' -> length s' = (length s + k)%nat) ->
  for_in xs body buffer = inr buffer' ->
  length buffer' = (length buffer + length xs * k)%nat.
Proof.
  intros Hbody. revert buffer.
  induction xs as [|i xs IH]; intros buffer Hloop.
  - injection Hloop as <-. simpl. lia.
  - cbn [for_in] in Hloop.
    destruct (body i buffer) as [e|s] eqn:Hs; [discriminate|].
    cbn in Hloop. rewrite (IH _ Hloop), (Hbody _ _ _ Hs). simpl. lia.
Qed.

(** ** Streams of blocks of equal length *)

Section blocks.

Context {A : Type} (block : A -> BitArray) (k : nat).
Hypothesis block_length : forall a, length (block a) = k.

Lemma flat_map_blocks_length (xs : list A) :
  length (flat_map block xs) = (length xs * k)%nat.
Proof.
  induction xs as [|a xs IH]; [reflexivity|].
  cbn [flat_map length]. rewrite length_app, block_length, IH. lia.
Qed.

(** The block of the [i]-th element starts at offset [i * k]. *)
Lemma flat_map_blocks_drop (xs : list A) (i : nat) (a : A) :
  xs !! i = Some a ->
  exists rest, drop (i * k) (flat_map block xs) = block a ++ rest.
Proof.
  revert i. induction xs as [|a' xs IH]; intros i Hi; [discriminate|].
  destruct i as [|i].
  - injection Hi as ->. now exists (flat_map block xs).
  - cbn in Hi. destruct (IH i Hi) as [rest Hrest]. exists rest.
    cbn [flat_map]. rewrite <- Hrest.
    replace (Datatypes.S i * k)%nat with (length (block a') + i * k)%nat
      by (rewrite block_length; lia).
    apply drop_app_add.
Qed.

End blocks.

(** ** The loops of the script *)

(** Goals about the sides of an image, whichever way they are written. *)
Ltac dims := unfold width, height in *; lia.

Section script_loops.

Variable image : Image.

Lemma getpixel_inside (x y : nat) :
  (x < width image)%nat -> (y < height image)%nat ->
  getpixel image x y = inr (data image x y).
Proof.
  intros Hx Hy. unfold getpixel.
  destruct (Nat.ltb_spec x (width image)); [|lia].
  destruct (Nat.ltb_spec y (height image)); [|lia]. reflexivity.
Qed.

(** One pixel with 8-bit channels: thirty more bits. *)
Lemma pixel_body_ok (x y : nat) (buffer : BitArray) :
  (x < width image)%nat -> (y < height image)%nat ->
  pixel_ok (data image x y) ->
  pixel_body image y x buffer = inr (buffer ++ pixel_bits (data image x y)).
Proof.
  intros Hx Hy (Hr & Hg & Hb). unfold pixel_body.
  rewrite getpixel_inside by assumption. cbn.
  rewrite !Bits_channel by assumption. cbn.
  unfold append, pixel_bits. now rewrite <- !app_assoc.
Qed.

(** One pixel with a channel that is not an 8-bit value: the first
    such channel raises. *)
Lemma pixel_body_bad (x y : nat) (buffer : BitArray) :
  (x < width image)%nat -> (y < height image)%nat ->
  ~ pixel_ok (data image x y) ->
  pixel_body image y x buffer = inl CreationError.
Proof.
  intros Hx Hy Hbad. unfold pixel_body.
  rewrite getpixel_inside by assumption. cbn.
  destruct (decide (channel_ok (data image x y).1.1)) as [Hr|Hr];
    [rewrite (Bits_channel _ Hr) | now rewrite (Bits_bad_channel _ Hr)].
  cbn.
  destruct (decide (channel_ok (data image x y).1.2)) as [Hg|Hg];
    [rewrite (Bits_channel _ Hg) | now rewrite (Bits_bad_channel _ Hg)].
  cbn.
  destruct (decide (channel_ok (data image x y).2)) as [Hb|Hb];
    [| now rewrite (Bits_bad_channel _ Hb)].
  destruct Hbad. exact (conj Hr (conj Hg Hb)).
Qed.

Lemma pixel_body_cases (x y : nat) (buffer : BitArray) :
  (x < width image)%nat -> (y < height image)%nat ->
  pixel_body image y x buffer = inl CreationError
  \/ exists buffer', pixel_body image y x buffer = inr buffer'.
Proof.
  intros Hx Hy. destruct (decide (pixel_ok (data image x y))) as [Hok|Hbad].
  - right. eexists. now apply pixel_body_ok.
  - left. now apply pixel_body_bad.
Qed.

Lemma row_loop_cases (y : nat) (buffer : BitArray) :
  (y < height image)%nat ->
  row_loop image y buffer = inl CreationError
  \/ exists buffer', row_loop image y buffer = inr buffer'.
Proof.
  intros Hy. apply for_in_returns_or_raises.
  intros x s Hx. apply in_seq in Hx. apply pixel_body_cases; [dims | assumption].
Qed.

(** The only exception the loops raise is [CreationError]. *)
Lemma grid_loop_cases (buffer : BitArray) :
  grid_loop image buffer = inl CreationError
  \/ exists buffer', grid_loop image buffer = inr buffer'.
Proof.
  apply for_in_returns_or_raises.
  intros y s Hy. apply in_seq in Hy. apply row_loop_cases. dims.
Qed.

(** A pixel that is not 8-bit anywhere in the image stops the loops. *)
Lemma grid_loop_bad (x y : nat) (buffer : BitArray) :
  (x < width image)%nat -> (y < height image)%nat ->
  ~ pixel_ok (data image x y) ->
  grid_loop image buffer = inl CreationError.
Proof.
  intros Hx Hy Hbad. apply for_in_raises.
  - intros y' s Hy'. apply in_seq in Hy'. apply row_loop_cases. dims.
  - exists y. split; [apply in_seq; dims |].
    intros s. apply for_in_raises.
    + intros x' s' Hx'. apply in_seq in Hx'.
      apply pixel_body_cases; [dims | assumption].
    + exists x. split; [apply in_seq; dims |].
      intros s'. now apply pixel_body_bad.
Qed.

(** With 8-bit channels throughout, the loops append the packed
    bitstream to the buffer. *)
Lemma grid_loop_ok (buffer : BitArray) :
  image_ok image ->
  grid_loop image buffer = inr (buffer ++ packed_bitstream image).
Proof.
  intros Hok. unfold grid_loop, for_range, packed_bitstream.
  apply for_in_appends. intros y s Hy. apply in_seq in Hy.
  unfold row_loop, for_range. apply for_in_appends.
  intros x s' Hx. apply in_seq in Hx.
  apply pixel_body_ok; [dims | dims |]. apply Hok; dims.
Qed.

Lemma row_bits_length (y : nat) :
  length (flat_map (fun x => pixel_bits (data image x y))
            (seq 0 (width image)))
  = (width image * 30)%nat.
Proof.
  rewrite (flat_map_blocks_length _ 30%nat), length_seq; [reflexivity|].
  intros x. apply pixel_bits_length.
Qed.

Lemma packed_bitstream_length :
  length (packed_bitstream image)
  = (width image * height image * 30)%nat.
Proof.
  unfold packed_bitstream.
  rewrite (flat_map_blocks_length _ (width image * 30)%nat), length_seq;
    [lia|].
  intros y. apply row_bits_length.
Qed.

(** The thirty bits at offset [30 * N] are those of the pixel whose
    row-major index is [N]. *)
Lemma packed_bitstream_pixel (x y : nat) :
  (x < width image)%nat -> (y < height image)%nat ->
  exists rest,
    drop (30 * row_major image x y) (packed_bitstream image)
    = pixel_bits (data image x y) ++ rest.
Proof.
  intros Hx Hy. unfold packed_bitstream, row_major.
  destruct (flat_map_blocks_drop
              (fun y => flat_map (fun x => pixel_bits (data image x y))
                          (seq 0 (width image)))
              (width image * 30)%nat row_bits_length
              (seq 0 (height image)) y y) as [rest1 Hrow].
  { now apply (lookup_seq_lt 0). }
  destruct (flat_map_blocks_drop
              (fun x => pixel_bits (data image x y)) 30%nat
              (fun x => pixel_bits_length _)
              (seq 0 (width image)) x x) as [rest2 Hpix].
  { now apply (lookup_seq_lt 0). }
  exists (rest2 ++ rest1).
  replace (30 * (y * width image + x))%nat
    with (y * (width image * 30) + x * 30)%nat by lia.
  rewrite <- drop_drop, Hrow, drop_app_le.
  - now rewrite Hpix, <- app_assoc.
  - rewrite row_bits_length. nia.
Qed.

End script_loops.

(** ** Runs of [main] *)

Section runs.

Variables (prog input_path output_path : string) (w : World).

(** With the wrong number of arguments [main] prints the usage message
    and exits with status 1. *)
Lemma main_usage (args : list string) :
  length args <> 2%nat ->
  main (prog :: args) w = (usage_shown prog w, inl (SystemExit 1)).
Proof.
  intros Hargs. unfold main.
  destruct (Nat.eqb_spec (length (prog :: args)) 3) as [Hlen|Hlen];
    [simpl in Hlen; lia |].
  unfold mbind, M_bind, lift, print, sys_exit, usage_shown, add_stdout.
  cbn [negb getitem lookup list_lookup mret result_ret
       fs writable decode stdout opened_files].
  now rewrite <- app_assoc.
Qed.

(** With two arguments, a decodable input and a writable output, [main]
    gets as far as the loops; what happens next is decided by [pack]. *)
Lemma main_run (image : Image) :
  ready input_path output_path image w ->
  main [prog; input_path; output_path] w
  = match pack image with
    | inl e => (opened image input_path output_path w, inl e)
    | inr out => (written image input_path output_path out w, inr tt)
    end.
Proof.
  intros [(contents & Hin & Hdec) Hout]. unfold main, pack.
  unfold mbind, M_bind, lift, Image_open_convert_RGB, open_wb, print, write.
  cbn [length Nat.eqb negb getitem lookup list_lookup mret M_ret result_ret].
  rewrite Hin, Hdec.
  cbn [fs add_stdout add_opened set_fs writable]. rewrite Hout.
  unfold result_bind, opened, written, set_fs, add_stdout, add_opened.
  cbn [fs writable decode stdout opened_files].
  destruct (grid_loop image (of_bytes [])) as [e|buffer];
    [now rewrite <- app_assoc |].
  destruct (bytes buffer) as [e|out]; [now rewrite <- app_assoc |].
  now rewrite alter_insert_eq, <- !app_assoc.
Qed.

End runs.

(** ** The packer *)

Section packer.

Variable image : Image.

(** The three fields of the pixel at [(x, y)] sit at bit offsets
    [30 * N], [30 * N + 10] and [30 * N + 20], where [N] is its
    row-major index. *)
Lemma packed_bitstream_fields (x y : nat) :
  (x < width image)%nat -> (y < height image)%nat ->
  let N := row_major image x y in
  let bits := packed_bitstream image in
  bits_at (30 * N) 10 bits = sample10 (data image x y).1.1
  /\ bits_at (30 * N + 10) 10 bits = sample10 (data image x y).1.2
  /\ bits_at (30 * N + 20) 10 bits = sample10 (data image x y).2.
Proof.
  intros Hx Hy N bits. subst N bits. unfold bits_at.
  destruct (packed_bitstream_pixel image x y Hx Hy) as [rest Hdrop].
  rewrite <- !drop_drop, Hdrop. unfold pixel_bits.
  rewrite <- !app_assoc. split; [|split].
  - now rewrite take_app_length' by now rewrite sample10_length.
  - rewrite drop_app_length' by now rewrite sample10_length.
    now rewrite take_app_length' by now rewrite sample10_length.
  - change 20%nat with (10 + 10)%nat. rewrite <- drop_drop.
    rewrite !drop_app_length' by now rewrite sample10_length.
    now rewrite take_app_length' by now rewrite sample10_length.
Qed.

(** The column and row of a row-major index. *)
Lemma row_major_inverse (N : nat) :
  (N < width image * height image)%nat ->
  (N mod width image < width image)%nat
  /\ (N / width image < height image)%nat
  /\ row_major image (N mod width image) (N / width image) = N.
Proof.
  intros HN. assert (width image <> 0)%nat as HW by lia.
  pose proof (Nat.mod_upper_bound N _ HW).
  pose proof (Nat.div_mod N _ HW) as Hdm.
  repeat split; [assumption | | unfold row_major; lia].
  apply Nat.Div0.div_lt_upper_bound. lia.
Qed.

(** The total bit count is a multiple of eight exactly when the pixel
    count is a multiple of four. *)
Lemma whole_bytes_iff :
  Z.of_nat (length (packed_bitstream image)) mod 8 = 0
  <-> Z.of_nat (width image * height image) mod 4 = 0.
Proof.
  rewrite packed_bitstream_length, Nat2Z.inj_mul.
  generalize (Z.of_nat (width image * height image)). intros n.
  change (Z.of_nat 30) with 30.
  pose proof (Z.div_mod (n * 30) 8). pose proof (Z.mod_pos_bound (n * 30) 8).
  pose proof (Z.div_mod n 4). pose proof (Z.mod_pos_bound n 4).
  lia.
Qed.

Lemma pack_ok :
  image_ok image -> pack image = bytes (packed_bitstream image).
Proof.
  intros Hok. unfold pack. now rewrite grid_loop_ok.
Qed.

(** A pixel count that is a multiple of four: [pack] returns the bytes
    of the stream. *)
Lemma pack_whole :
  image_ok image ->
  Z.of_nat (width image * height image) mod 4 = 0 ->
  pack image = inr (to_bytes (packed_bitstream image)).
Proof.
  intros Hok Hmod. rewrite pack_ok by assumption.
  apply bytes_whole, whole_bytes_iff, Hmod.
Qed.

(** Any other pixel count: the [bytes] property raises. *)
Lemma pack_partial :
  image_ok image ->
  Z.of_nat (width image * height image) mod 4 <> 0 ->
  pack image = inl InterpretError.
Proof.
  intros Hok Hmod. rewrite pack_ok by assumption.
  apply bytes_partial. now rewrite whole_bytes_iff.
Qed.

Lemma Bits_length (v : Z) (n : nat) (bits : BitArray) :
  Bits v n = inr bits -> length bits = n.
Proof.
  unfold Bits. destruct (_ || _); [discriminate|].
  intros [= <-]. apply uint_bits_length.
Qed.

Lemma pixel_body_length (x y : nat) (buffer buffer' : BitArray) :
  pixel_body image y x buffer = inr buffer' ->
  length buffer' = (length buffer + 30)%nat.
Proof.
  unfold pixel_body, append.
  destruct (getpixel image x y) as [e|p]; [discriminate|]. cbn.
  destruct (Bits (p.1.1 * 4) 10) as [e|r] eqn:Hr; [discriminate|]. cbn.
  destruct (Bits (p.1.2 * 4) 10) as [e|g] eqn:Hg; [discriminate|]. cbn.
  destruct (Bits (p.2 * 4) 10) as [e|b] eqn:Hb; [discriminate|]. cbn.
  intros [= <-]. rewrite !length_app.
  rewrite (Bits_length _ _ _ Hr), (Bits_length _ _ _ Hg),
    (Bits_length _ _ _ Hb). lia.
Qed.

(** Whatever the pixels, loops that return have added thirty bits per
    pixel. *)
Lemma grid_loop_length (buffer buffer' : BitArray) :
  grid_loop image buffer = inr buffer' ->
  length buffer'
  = (length buffer + width image * height image * 30)%nat.
Proof.
  intros Hloop.
  apply (for_in_length _ _ (width image * 30)%nat) in Hloop.
  - rewrite Hloop, length_seq. unfold width, height. lia.
  - intros y s s' Hrow.
    apply (for_in_length _ _ 30%nat) in Hrow.
    + rewrite Hrow, length_seq. unfold width. lia.
    + intros x t t'. apply pixel_body_length.
Qed.

(** Whatever the pixels, [pack] raises when the pixel count is not a
    multiple of four. *)
Lemma pack_partial_raises :
  Z.of_nat (width image * height image) mod 4 <> 0 ->
  pack image = inl CreationError \/ pack image = inl InterpretError.
Proof.
  intros Hmod. unfold pack.
  destruct (grid_loop_cases image (of_bytes [])) as [-> | [buffer Hloop]];
    [now left | right].
  rewrite Hloop. cbn. apply bytes_partial.
  rewrite (grid_loop_length _ _ Hloop). cbn [of_bytes flat_map length].
  rewrite Nat.add_0_l, <- packed_bitstream_length.
  now rewrite whole_bytes_iff.
Qed.

End packer.

(** The loops only read the pixels inside the image. *)
Lemma grid_loop_ext (image1 image2 : Image) (buffer : BitArray) :
  same_pixels image1 image2 ->
  grid_loop image1 buffer = grid_loop image2 buffer.
Proof.
  intros [Hsize Hdata]. unfold grid_loop, for_range. rewrite <- Hsize.
  apply for_in_ext. intros y s Hy. apply in_seq in Hy.
  unfold row_loop, for_range. rewrite <- Hsize.
  apply for_in_ext. intros x s' Hx. apply in_seq in Hx.
  unfold pixel_body, getpixel, width, height.
  rewrite <- Hsize, Hdata by dims. reflexivity.
Qed.

(** ** The script on the sample inputs *)

Example two_by_two_pack :
  pack two_by_two
  = inr [Byte.x00; Byte.x20; Byte.x00; Byte.x03; Byte.xfc; Byte.x80;
         Byte.x00; Byte.x00; Byte.x02; Byte.x00; Byte.x11; Byte.x3f;
         Byte.xc8; Byte.x00; Byte.x44].
Proof. vm_compute. reflexivity. Qed.

Example two_by_two_run :
  let run := main ["prog"; "in.png"; "out.raw"] (world_with two_by_two) in
  run.2 = inr tt
  /\ stdout run.1
     = ["Input image size is (2, 2) bytes."; "Output image size is 15 bytes."]
  /\ opened_files run.1 = ["in.png"; "out.raw"]
  /\ (exists contents : list Byte.byte,
        pack two_by_two = inr contents
        /\ fs run.1 !! "out.raw" = Some contents).
Proof. vm_compute. repeat split. eexists. split; reflexivity. Qed.

Example bad_red_run :
  let run := main ["prog"; "in.png"; "out.raw"] (world_with bad_red) in
  run.2 = inl CreationError
  /\ stdout run.1 = ["Input image size is (2, 2) bytes."]
  /\ fs run.1 !! "out.raw" = Some [].
Proof. vm_compute. repeat split. Qed.

Example no_arguments_run :
  let run := main ["prog"] (world_with two_by_two) in
  run.2 = inl (SystemExit 1)
  /\ stdout run.1
     = ["Usage: prog INPUT_FILE OUTPUT_FILE";
        "Converts an image to CDI 10-bit RGB format."]
  /\ opened_files run.1 = [].
Proof. vm_compute. repeat split. Qed.

(** Checks [image_ok] on a sample image of at most two rows and columns. *)
Ltac sample_ok :=
  intros [|[|?]] [|[|?]]; unfold width, height; cbn; intros ? ?;
  try lia; unfold pixel_ok, channel_ok; cbn; lia.

(** Checks [ready] on a sample world. *)
Ltac sample_ready := split; [exists []; split; reflexivity | reflexivity].

(** * The format *)

(** C1: for every image with 8-bit channels, the buffer the loops build is
    the packed bitstream: the pixels in row-major order, each as three
    10-bit fields, most significant bit first, in the order R, G, B, with
    nothing in between.  It holds thirty bits per pixel, and the fields of
    the pixel with row-major index [N] are the ten bits at offsets
    [30 * N], [30 * N + 10] and [30 * N + 20], which read back as four
    times the channel. *)
Theorem bitstream_layout (image : Image) :
  image_ok image ->
  let bits := packed_bitstream image in
  grid_loop image (of_bytes []) = inr bits
  /\ length bits = (30 * (width image * height image))%nat
  /\ (forall x y : nat,
        (x < width image)%nat -> (y < height image)%nat ->
        let N := row_major image x y in
        let p := data image x y in
        (N < width image * height image)%nat
        /\ bits_at (30 * N) 10 bits = uint_bits 10 (p.1.1 * 4)
        /\ bits_at (30 * N + 10) 10 bits = uint_bits 10 (p.1.2 * 4)
        /\ bits_at (30 * N + 20) 10 bits = uint_bits 10 (p.2 * 4)
        /\ uint (bits_at (30 * N) 10 bits) = p.1.1 * 4
        /\ uint (bits_at (30 * N + 10) 10 bits) = p.1.2 * 4
        /\ uint (bits_at (30 * N + 20) 10 bits) = p.2 * 4)
  /\ (forall N : nat,
        (N < width image * height image)%nat ->
        bits_at (30 * N) 30 bits
        = pixel_bits (data image (N mod width image) (N / width image))).
Proof.
  intros Hok bits. subst bits. split; [|split; [|split]].
  - now rewrite grid_loop_ok.
  - rewrite packed_bitstream_length. lia.
  - intros x y Hx Hy N p. subst N p.
    destruct (packed_bitstream_fields image x y Hx Hy) as (Hr & Hg & Hb).
    destruct (Hok x y Hx Hy) as (Hr' & Hg' & Hb').
    rewrite Hr, Hg, Hb. fold (sample10 (data image x y).1.1).
    fold (sample10 (data image x y).1.2). fold (sample10 (data image x y).2).
    rewrite !sample10_uint by assumption.
    repeat split. unfold row_major. nia.
  - intros N HN.
    destruct (row_major_inverse image N HN) as (Hx & Hy & HN').
    destruct (packed_bitstream_pixel image _ _ Hx Hy) as [rest Hdrop].
    unfold bits_at. rewrite HN' in Hdrop. rewrite Hdrop.
    apply take_app_length'. now rewrite pixel_bits_length.
Qed.

Lemma bitstream_layout_witness :
  image_ok two_by_two
  /\ grid_loop two_by_two (of_bytes []) = inr (packed_bitstream two_by_two).
Proof.
  split; [sample_ok |].
  apply (bitstream_layout two_by_two). sample_ok.
Defined.

(** C4: for every channel value [c] in [0, 255], the 10-bit sample the
    script places in the bitstream for it is [c * 4].  Whatever the image
    (with 8-bit channels) and the pixel, the ten bits that the loops put
    at the place of a channel whose value is [c] read back as [c * 4]: a
    multiple of 4 between 0 and 1020, never 1021, 1022 or 1023.  Every
    [c] in [0, 255] is such a channel (of the 1x1 image [gray c]), the
    field is the one [Bits (c * 4) 10] builds, and every 10-bit field of
    the stream is such a value. *)
Theorem scaling_law :
  (forall (image : Image) (x y k : nat) (c : Z),
      image_ok image ->
      (x < width image)%nat -> (y < height image)%nat -> (k < 3)%nat ->
      channel k (data image x y) = c ->
      exists buffer : BitArray,
        grid_loop image (of_bytes []) = inr buffer
        /\ let sample := placed_sample image buffer x y k in
           sample = c * 4
           /\ sample mod 4 = 0
           /\ 0 <= sample <= 1020
           /\ ~ 1021 <= sample <= 1023)
  /\ (forall (c : Z) (k : nat),
        channel_ok c -> (k < 3)%nat ->
        exists buffer : BitArray,
          grid_loop (gray c) (of_bytes []) = inr buffer
          /\ placed_sample (gray c) buffer 0 0 k = c * 4)
  /\ (forall c : Z,
        channel_ok c ->
        exists field : BitArray,
          Bits (c * 4) 10 = inr field
          /\ length field = 10%nat
          /\ uint field = c * 4
          /\ uint field mod 4 = 0
          /\ 0 <= uint field <= 1020
          /\ ~ 1021 <= uint field <= 1023)
  /\ (forall (image : Image) (buffer : BitArray) (k : nat),
        image_ok image ->
        grid_loop image (of_bytes []) = inr buffer ->
        (k < 3 * (width image * height image))%nat ->
        let sample := uint (bits_at (10 * k) 10 buffer) in
        sample mod 4 = 0 /\ 0 <= sample <= 1020).
Proof.
  assert (forall (image : Image) (x y k : nat),
             image_ok image ->
             (x < width image)%nat -> (y < height image)%nat ->
             (k < 3)%nat ->
             channel_ok (channel k (data image x y))
             /\ placed_sample image (packed_bitstream image) x y k
                = channel k (data image x y) * 4) as Hplaced.
  { intros image x y k Hok Hx Hy Hk. unfold placed_sample.
    destruct (packed_bitstream_fields image x y Hx Hy) as (Hr & Hg & Hb).
    destruct (Hok x y Hx Hy) as (Hr' & Hg' & Hb').
    destruct k as [|[|[|k]]]; [| | | lia]; cbn [channel].
    - change (10 * 0)%nat with 0%nat. rewrite Nat.add_0_r, Hr.
      split; [exact Hr' | now apply sample10_uint].
    - change (10 * 1)%nat with 10%nat. rewrite Hg.
      split; [exact Hg' | now apply sample10_uint].
    - change (10 * 2)%nat with 20%nat. rewrite Hb.
      split; [exact Hb' | now apply sample10_uint]. }
  split; [| split; [| split]].
  - intros image x y k c Hok Hx Hy Hk <-.
    exists (packed_bitstream image). split; [now rewrite grid_loop_ok |].
    destruct (Hplaced image x y k Hok Hx Hy Hk) as [Hc Hsample].
    cbv zeta. rewrite Hsample. unfold channel_ok in Hc.
    rewrite Z.mod_mul by lia. repeat split; lia.
  - intros c k Hc Hk.
    assert (image_ok (gray c)) as Hok
        by (intros x y _ _; exact (conj Hc (conj Hc Hc))).
    exists (packed_bitstream (gray c)). split; [now rewrite grid_loop_ok |].
    destruct (Hplaced (gray c) 0%nat 0%nat k Hok) as [_ Hsample];
      [cbn; lia | cbn; lia | exact Hk |].
    rewrite Hsample. now destruct k as [|[|k]].
  - intros c Hc. exists (sample10 c).
    rewrite Bits_channel, sample10_length, sample10_uint by assumption.
    unfold channel_ok in Hc. rewrite Z.mod_mul by lia.
    repeat split; lia.
  - intros image buffer k Hok Hloop Hk sample. subst sample.
    rewrite grid_loop_ok in Hloop by assumption. injection Hloop as <-.
    cbn [of_bytes flat_map app].
    assert (k / 3 < width image * height image)%nat as HN
        by (apply Nat.Div0.div_lt_upper_bound; lia).
    destruct (row_major_inverse image _ HN) as (Hx & Hy & HN').
    pose proof (Nat.div_mod k 3 ltac:(lia)) as Hdm.
    pose proof (Nat.mod_upper_bound k 3 ltac:(lia)) as Hlt.
    destruct (Hplaced image _ _ (k mod 3)%nat Hok Hx Hy Hlt) as [Hc Hsample].
    unfold placed_sample in Hsample. rewrite HN' in Hsample.
    replace (10 * k)%nat with (30 * (k / 3) + 10 * (k mod 3))%nat by lia.
    rewrite Hsample. unfold channel_ok in Hc.
    rewrite Z.mod_mul by lia. lia.
Qed.

Lemma scaling_law_witness :
  (image_ok two_by_two
   /\ (1 < width two_by_two)%nat /\ (0 < height two_by_two)%nat
   /\ (0 < 3)%nat
   /\ channel 0 (data two_by_two 1 0) = 255
   /\ exists buffer : BitArray,
        grid_loop two_by_two (of_bytes []) = inr buffer
        /\ placed_sample two_by_two buffer 1 0 0 = 255 * 4)
  /\ (channel_ok 255
      /\ (1 < 3)%nat
      /\ exists buffer : BitArray,
           grid_loop (gray 255) (of_bytes []) = inr buffer
           /\ placed_sample (gray 255) buffer 0 0 1 = 255 * 4)
  /\ (exists field : BitArray,
        Bits (255 * 4) 10 = inr field /\ uint field = 255 * 4)
  /\ (grid_loop two_by_two (of_bytes []) = inr (packed_bitstream two_by_two)
      /\ (5 < 3 * (width two_by_two * height two_by_two))%nat
      /\ uint (bits_at (10 * 5) 10 (packed_bitstream two_by_two)) mod 4 = 0
      /\ 0 <= uint (bits_at (10 * 5) 10 (packed_bitstream two_by_two)) <= 1020).
Proof.
  assert (channel_ok 255) as H255 by (unfold channel_ok; lia).
  assert (image_ok two_by_two) as Hok by sample_ok.
  assert (1 < width two_by_two)%nat as Hx by (cbn; lia).
  assert (0 < height two_by_two)%nat as Hy by (cbn; lia).
  assert (0 < 3)%nat as Hk0 by lia.
  assert (1 < 3)%nat as Hk1 by lia.
  assert (channel 0 (data two_by_two 1 0) = 255) as Hc by reflexivity.
  assert (grid_loop two_by_two (of_bytes [])
          = inr (packed_bitstream two_by_two)) as Hloop by reflexivity.
  assert (5 < 3 * (width two_by_two * height two_by_two))%nat as Hk
      by (cbn; lia).
  destruct scaling_law as (Hplaced & Hgray & Hbits & Hfields).
  split; [| split; [| split]].
  - split; [exact Hok |]. split; [exact Hx |]. split; [exact Hy |].
    split; [exact Hk0 |]. split; [exact Hc |].
    destruct (Hplaced two_by_two 1%nat 0%nat 0%nat 255 Hok Hx Hy Hk0 Hc)
      as (buffer & Hbuffer & Hsample & _).
    exists buffer. split; [exact Hbuffer | exact Hsample].
  - split; [exact H255 |]. split; [exact Hk1 |].
    exact (Hgray 255 1%nat H255 Hk1).
  - destruct (Hbits 255 H255) as (field & Hfield & _ & Huint & _).
    exists field. split; [exact Hfield | exact Huint].
  - split; [exact Hloop |]. split; [exact Hk |].
    exact (Hfields two_by_two _ 5%nat Hok Hloop Hk).
Defined.

(** * The output bytes *)

(** C2, as the claim states it, fails: the 1x1 image has thirty bits, and
    the conversion produces no output of [ceil(30 / 8) = 4] bytes (nor of
    any other length), it raises. *)
Lemma length_law_fails_on_single_pixel :
  pack single_pixel = inl InterpretError
  /\ (~ exists contents : list Byte.byte,
          pack single_pixel = inr contents
          /\ Z.of_nat (length contents) = ceil_div (1 * 1 * 30) 8)
  /\ (let run := main ["prog"; "in.png"; "out.raw"] (world_with single_pixel) in
      run.2 = inl InterpretError /\ fs run.1 !! "out.raw" = Some []).
Proof.
  split; [reflexivity | split].
  - intros (contents & Hpack & _). discriminate Hpack.
  - split; vm_compute; reflexivity.
Qed.

(** C2, amended: for every image of width [W] and height [H] with 8-bit
    channels whose pixel count [W * H] is a multiple of 4, the conversion
    produces an output whose byte length is [ceil(W * H * 30 / 8)]; [main]
    prints that length and leaves those bytes in the output file. *)
Theorem length_law (image : Image) :
  image_ok image ->
  Z.of_nat (width image * height image) mod 4 = 0 ->
  exists contents : list Byte.byte,
    pack image = inr contents
    /\ Z.of_nat (length contents)
       = ceil_div (Z.of_nat (width image) * Z.of_nat (height image) * 30) 8
    /\ forall (prog input_path output_path : string) (w : World),
         ready input_path output_path image w ->
         main [prog; input_path; output_path] w
         = (written image input_path output_path contents w, inr tt).
Proof.
  intros Hok Hmod. exists (to_bytes (packed_bitstream image)).
  pose proof (pack_whole image Hok Hmod) as Hpack.
  destruct (bytes_whole (packed_bitstream image)) as (_ & Hlen & _);
    [now apply whole_bytes_iff |].
  split; [exact Hpack | split].
  - rewrite packed_bitstream_length in Hlen. unfold ceil_div.
    rewrite !Nat2Z.inj_mul in Hlen. change (Z.of_nat 30) with 30 in Hlen.
    rewrite <- Hlen.
    replace (Z.of_nat (length (to_bytes (packed_bitstream image))) * 8 + 8 - 1)
      with (7 + Z.of_nat (length (to_bytes (packed_bitstream image))) * 8)
      by lia.
    rewrite Z.div_add by lia. reflexivity.
  - intros prog input_path output_path w Hready.
    now rewrite (main_run _ _ _ _ _ Hready), Hpack.
Qed.

Lemma length_law_witness :
  image_ok two_by_two
  /\ Z.of_nat (width two_by_two * height two_by_two) mod 4 = 0
  /\ exists contents : list Byte.byte,
       pack two_by_two = inr contents
       /\ Z.of_nat (length contents) = 15.
Proof.
  assert (image_ok two_by_two) as Hok by sample_ok.
  assert (Z.of_nat (width two_by_two * height two_by_two) mod 4 = 0)
    as Hmod by reflexivity.
  split; [exact Hok | split; [exact Hmod |]].
  destruct (length_law two_by_two Hok Hmod) as (contents & Hpack & Hlen & _).
  exists contents. split; [exact Hpack | exact Hlen].
Defined.

(** C3, as the claim states it, fails: the 1x1 image has thirty bits, not
    a multiple of 8, and there are no output bytes that hold its packed
    bitstream followed by zero bits. *)
Lemma padding_fails_on_single_pixel :
  Z.of_nat (length (packed_bitstream single_pixel)) mod 8 <> 0
  /\ ~ exists (contents : list Byte.byte) (pad : nat),
         pack single_pixel = inr contents
         /\ of_bytes contents
            = packed_bitstream single_pixel ++ replicate pad false.
Proof.
  split; [discriminate |].
  intros (contents & pad & Hpack & _). discriminate Hpack.
Qed.

(** C3, amended: the output never has a padded partial byte.  For every
    image with 8-bit channels, output bytes, when there are any, hold
    exactly the packed bitstream, eight bits a byte and no bit more; and
    when the total bit length [W * H * 30] is not a multiple of 8 there
    are none: the conversion raises [InterpretError]. *)
Theorem no_padding (image : Image) :
  image_ok image ->
  (forall contents : list Byte.byte,
      pack image = inr contents ->
      of_bytes contents = packed_bitstream image
      /\ Z.of_nat (length contents) * 8
         = Z.of_nat (width image * height image * 30))
  /\ (Z.of_nat (width image * height image * 30) mod 8 <> 0 ->
      pack image = inl InterpretError).
Proof.
  intros Hok. rewrite <- packed_bitstream_length, pack_ok by assumption.
  split.
  - intros contents Hbytes.
    destruct (Z.eq_dec (Z.of_nat (length (packed_bitstream image)) mod 8) 0)
      as [Hmod|Hmod].
    + destruct (bytes_whole _ Hmod) as (Hb & Hlen & Hbits).
      rewrite Hb in Hbytes. injection Hbytes as <-. now split.
    + rewrite bytes_partial in Hbytes by assumption. discriminate.
  - apply bytes_partial.
Qed.

Lemma no_padding_witness :
  image_ok two_by_two
  /\ (pack two_by_two = inr (to_bytes (packed_bitstream two_by_two)) ->
      of_bytes (to_bytes (packed_bitstream two_by_two))
      = packed_bitstream two_by_two
      /\ Z.of_nat (length (to_bytes (packed_bitstream two_by_two))) * 8
         = Z.of_nat (width two_by_two * height two_by_two * 30))
  /\ image_ok single_pixel
  /\ Z.of_nat (width single_pixel * height single_pixel * 30) mod 8 <> 0
  /\ pack single_pixel = inl InterpretError.
Proof.
  assert (image_ok two_by_two) as Hok2 by sample_ok.
  assert (image_ok single_pixel) as Hok1 by sample_ok.
  assert (Z.of_nat (width single_pixel * height single_pixel * 30) mod 8 <> 0)
    as Hmod by discriminate.
  split; [exact Hok2 | split].
  - exact (proj1 (no_padding two_by_two Hok2) _).
  - split; [exact Hok1 | split; [exact Hmod |]].
    exact (proj2 (no_padding single_pixel Hok1) Hmod).
Defined.

(** C5, as the claim states it, fails: converting the 1x1 image whose
    pixel is (255, 128, 0) does not produce 4 bytes.  The [bytes] property
    raises on its thirty bits and the output file stays empty. *)
Lemma single_pixel_has_no_bytes :
  (~ exists contents : list Byte.byte,
       pack single_pixel = inr contents /\ length contents = 4%nat)
  /\ (let run := main ["prog"; "in.png"; "out.raw"] (world_with single_pixel) in
      run.2 = inl InterpretError /\ fs run.1 !! "out.raw" = Some []).
Proof.
  split.
  - intros (contents & Hpack & _). discriminate Hpack.
  - split; vm_compute; reflexivity.
Qed.

(** C5, amended: converting the 1x1 image whose pixel is (255, 128, 0)
    builds exactly thirty bits, which read as three 10-bit fields, most
    significant bit first, give the samples (1020, 512, 0); no bits are
    added to them, and no output bytes are produced: the conversion raises
    [InterpretError], and [main] leaves the output file empty. *)
Theorem single_pixel_bits :
  exists bits : BitArray,
    grid_loop single_pixel (of_bytes []) = inr bits
    /\ length bits = 30%nat
    /\ uint (bits_at 0 10 bits) = 1020
    /\ uint (bits_at 10 10 bits) = 512
    /\ uint (bits_at 20 10 bits) = 0
    /\ pack single_pixel = inl InterpretError
    /\ forall (prog input_path output_path : string) (w : World),
         ready input_path output_path single_pixel w ->
         main [prog; input_path; output_path] w
         = (opened single_pixel input_path output_path w, inl InterpretError).
Proof.
  eexists. split; [reflexivity |].
  repeat (split; [reflexivity |]).
  intros prog input_path output_path w Hready.
  now rewrite (main_run _ _ _ _ _ Hready).
Qed.

Lemma single_pixel_bits_witness :
  ready "in.png" "out.raw" single_pixel (world_with single_pixel)
  /\ main ["prog"; "in.png"; "out.raw"] (world_with single_pixel)
     = (opened single_pixel "in.png" "out.raw" (world_with single_pixel),
        inl InterpretError).
Proof.
  assert (ready "in.png" "out.raw" single_pixel (world_with single_pixel))
    as Hready by sample_ready.
  split; [exact Hready |].
  destruct single_pixel_bits as (bits & _ & _ & _ & _ & _ & _ & Hmain).
  exact (Hmain "prog" "in.png" "out.raw" _ Hready).
Defined.

(** C6: converting an image of width 0 or height 0 succeeds and produces
    no bytes: the loops leave the buffer empty, its bytes are the empty
    sequence, and [main] writes an empty output file and returns. *)
Theorem empty_image (image : Image) :
  width image = 0%nat \/ height image = 0%nat ->
  grid_loop image (of_bytes []) = inr []
  /\ pack image = inr []
  /\ forall (prog input_path output_path : string) (w : World),
       ready input_path output_path image w ->
       let run := main [prog; input_path; output_path] w in
       run = (written image input_path output_path [] w, inr tt)
       /\ exit_code run.2 = 0
       /\ fs run.1 !! output_path = Some [].
Proof.
  intros Hzero.
  assert (image_ok image) as Hok by (intros x y Hx Hy; lia).
  assert (packed_bitstream image = []) as Hnil.
  { apply length_zero_iff_nil. rewrite packed_bitstream_length. nia. }
  assert (pack image = inr []) as Hpack.
  { rewrite pack_ok, Hnil by assumption. reflexivity. }
  split; [| split; [exact Hpack |]].
  - now rewrite grid_loop_ok, Hnil.
  - intros prog input_path output_path w Hready run. subst run.
    rewrite (main_run _ _ _ _ _ Hready), Hpack.
    repeat split. cbn. apply lookup_insert_eq.
Qed.

Lemma empty_image_witness :
  (width no_rows = 0%nat \/ height no_rows = 0%nat)
  /\ grid_loop no_rows (of_bytes []) = inr []
  /\ pack no_rows = inr [].
Proof.
  assert (width no_rows = 0%nat \/ height no_rows = 0%nat) as Hzero
      by (right; reflexivity).
  split; [exact Hzero |].
  destruct (empty_image no_rows Hzero) as (Hloop & Hpack & _).
  split; [exact Hloop | exact Hpack].
Defined.

(** * Errors *)

(** C7: if a channel of a pixel of the image is outside [0, 255], the
    packer raises instead of truncating or wrapping the value into ten
    bits: the loops stop with [CreationError], there are no output bytes,
    and [main] leaves the output file empty. *)
Theorem invalid_channel_raises (image : Image) (x y : nat) :
  (x < width image)%nat -> (y < height image)%nat ->
  ~ pixel_ok (data image x y) ->
  grid_loop image (of_bytes []) = inl CreationError
  /\ pack image = inl CreationError
  /\ forall (prog input_path output_path : string) (w : World),
       ready input_path output_path image w ->
       let run := main [prog; input_path; output_path] w in
       run = (opened image input_path output_path w, inl CreationError)
       /\ exit_code run.2 = 1
       /\ fs run.1 !! output_path = Some [].
Proof.
  intros Hx Hy Hbad.
  pose proof (grid_loop_bad image x y (of_bytes []) Hx Hy Hbad) as Hloop.
  assert (pack image = inl CreationError) as Hpack
      by (unfold pack; now rewrite Hloop).
  split; [exact Hloop | split; [exact Hpack |]].
  intros prog input_path output_path w Hready run. subst run.
  rewrite (main_run _ _ _ _ _ Hready), Hpack.
  repeat split. cbn. apply lookup_insert_eq.
Qed.

Lemma invalid_channel_raises_witness :
  ((1 < width bad_red)%nat /\ (1 < height bad_red)%nat
   /\ ~ pixel_ok (data bad_red 1 1))
  /\ grid_loop bad_red (of_bytes []) = inl CreationError
  /\ pack bad_red = inl CreationError.
Proof.
  assert (1 < width bad_red)%nat as Hx by (cbn; lia).
  assert (1 < height bad_red)%nat as Hy by (cbn; lia).
  assert (~ pixel_ok (data bad_red 1 1)) as Hbad
      by (unfold pixel_ok, channel_ok; cbn; lia).
  split; [split; [exact Hx | split; [exact Hy | exact Hbad]] |].
  destruct (invalid_channel_raises bad_red 1 1 Hx Hy Hbad) as (Hl & Hp & _).
  split; [exact Hl | exact Hp].
Defined.

(** C8: packing is deterministic.  Two images with the same dimensions and
    the same pixels give the same buffer and the same bytes or the same
    exception, and two runs of [main] on them end the same way with the
    same output file. *)
Theorem deterministic (image1 image2 : Image) :
  same_pixels image1 image2 ->
  grid_loop image1 (of_bytes []) = grid_loop image2 (of_bytes [])
  /\ pack image1 = pack image2
  /\ forall (prog input_path output_path : string) (w1 w2 : World),
       ready input_path output_path image1 w1 ->
       ready input_path output_path image2 w2 ->
       let run1 := main [prog; input_path; output_path] w1 in
       let run2 := main [prog; input_path; output_path] w2 in
       run1.2 = run2.2
       /\ fs run1.1 !! output_path = fs run2.1 !! output_path.
Proof.
  intros Hsame.
  pose proof (grid_loop_ext image1 image2 (of_bytes []) Hsame) as Hloop.
  assert (pack image1 = pack image2) as Hpack
      by (unfold pack; now rewrite Hloop).
  split; [exact Hloop | split; [exact Hpack |]].
  intros prog input_path output_path w1 w2 Hready1 Hready2 run1 run2.
  subst run1 run2.
  rewrite (main_run _ _ _ _ _ Hready1), (main_run _ _ _ _ _ Hready2), Hpack.
  destruct (pack image2) as [e|contents]; cbn;
    (split; [reflexivity | now rewrite !lookup_insert_eq]).
Qed.

Lemma deterministic_witness :
  same_pixels two_by_two two_by_two_framed
  /\ pack two_by_two = pack two_by_two_framed.
Proof.
  assert (same_pixels two_by_two two_by_two_framed) as Hsame.
  { split; [reflexivity |].
    intros [|[|?]] [|[|?]]; cbn; intros ? ?; try lia; reflexivity. }
  split; [exact Hsame |].
  exact (proj1 (proj2 (deterministic two_by_two two_by_two_framed Hsame))).
Defined.

(** C9: called with a program name and any number of arguments other than
    two, [main] prints the usage message and exits with status 1; no file
    has been opened and the file system is as it was. *)
Theorem usage_error (prog : string) (args : list string) (w : World) :
  length args <> 2%nat ->
  let run := main (prog :: args) w in
  run = (usage_shown prog w, inl (SystemExit 1))
  /\ exit_code run.2 = 1
  /\ stdout run.1
     = stdout w ++ ["Usage: " +:+ prog +:+ " INPUT_FILE OUTPUT_FILE";
                    "Converts an image to CDI 10-bit RGB format."]
  /\ opened_files run.1 = opened_files w
  /\ fs run.1 = fs w.
Proof.
  intros Hargs run. subst run. rewrite main_usage by assumption.
  repeat split.
Qed.

Lemma usage_error_witness :
  length ["in.png"] <> 2%nat
  /\ main ["prog"; "in.png"] (world_with two_by_two)
     = (usage_shown "prog" (world_with two_by_two), inl (SystemExit 1)).
Proof.
  assert (length ["in.png"] <> 2%nat) as Hargs by (simpl; lia).
  split; [exact Hargs |].
  exact (proj1 (usage_error "prog" ["in.png"] (world_with two_by_two) Hargs)).
Defined.

(** C10: [main] opens the output file, which creates or truncates it,
    before the loops, and writes once, after them.  So for every image
    whose pixel count is not a multiple of 4 the run ends in an exception
    with the output file left empty, and when the channels are 8-bit
    values that exception is the [InterpretError] of the [bytes]
    property, raised before anything is written. *)
Theorem partial_byte_leaves_empty_file (image : Image)
    (prog input_path output_path : string) (w : World) :
  Z.of_nat (width image * height image) mod 4 <> 0 ->
  ready input_path output_path image w ->
  let run := main [prog; input_path; output_path] w in
  (exists e, run = (opened image input_path output_path w, inl e))
  /\ exit_code run.2 = 1
  /\ fs run.1 = <[output_path := []]> (fs w)
  /\ opened_files run.1 = opened_files w ++ [input_path; output_path]
  /\ (image_ok image ->
      pack image = inl InterpretError
      /\ run = (opened image input_path output_path w, inl InterpretError)).
Proof.
  intros Hmod Hready run. subst run. rewrite (main_run _ _ _ _ _ Hready).
  destruct (pack_partial_raises image Hmod) as [Hpack|Hpack]; rewrite Hpack;
    (split; [eexists; reflexivity |]); do 3 (split; [reflexivity |]).
  - intros Hok. rewrite (pack_partial image Hok Hmod) in Hpack. discriminate.
  - intros _. now split.
Qed.

Lemma partial_byte_leaves_empty_file_witness :
  Z.of_nat (width single_pixel * height single_pixel) mod 4 <> 0
  /\ ready "in.png" "out.raw" single_pixel (world_with single_pixel)
  /\ fs (main ["prog"; "in.png"; "out.raw"] (world_with single_pixel)).1
     = <["out.raw" := []]> (fs (world_with single_pixel)).
Proof.
  assert (Z.of_nat (width single_pixel * height single_pixel) mod 4 <> 0)
    as Hmod by discriminate.
  assert (ready "in.png" "out.raw" single_pixel (world_with single_pixel))
    as Hready by sample_ready.
  split; [exact Hmod | split; [exact Hready |]].
  exact (proj1 (proj2 (proj2
    (partial_byte_leaves_empty_file single_pixel "prog" "in.png" "out.raw"
       (world_with single_pixel) Hmod Hready)))).
Defined.

(** * Further properties of the script *)

(** ** Every run of [main] *)

Section all_runs.

Variables (prog input_path output_path : string) (w : World).

(** [main] with two arguments, step by step: the input may be missing or
    not an image, the output may not be writable, and then [pack]
    decides. *)
Lemma main_three :
  main [prog; input_path; output_path] w
  = match fs w !! input_path with
    | None => (w, inl FileNotFoundError)
    | Some contents =>
        match decode w contents with
        | None => (add_opened [input_path] w, inl UnidentifiedImageError)
        | Some image =>
            if writable w output_path
            then match pack image with
                 | inl e => (opened image input_path output_path w, inl e)
                 | inr out =>
                     (written image input_path output_path out w, inr tt)
                 end
            else (add_opened [input_path]
                    (add_stdout
                       ["Input image size is " +:+ show_size (size image)
                        +:+ " bytes."] w),
                  inl PermissionError)
        end
    end.
Proof.
  destruct (fs w !! input_path) as [contents|] eqn:Hin.
  - destruct (decode w contents) as [image|] eqn:Hdec.
    + destruct (writable w output_path) eqn:Hout.
      * apply main_run. split; [now exists contents | assumption].
      * unfold main.
        unfold mbind, M_bind, lift, Image_open_convert_RGB, open_wb, print.
        cbn [length Nat.eqb negb getitem lookup list_lookup mret M_ret
             result_ret].
        rewrite Hin, Hdec. cbn [fs add_stdout add_opened writable].
        now rewrite Hout.
    + unfold main. unfold mbind, M_bind, lift, Image_open_convert_RGB.
      cbn [length Nat.eqb negb getitem lookup list_lookup mret M_ret
           result_ret].
      now rewrite Hin, Hdec.
  - unfold main. unfold mbind, M_bind, lift, Image_open_convert_RGB.
    cbn [length Nat.eqb negb getitem lookup list_lookup mret M_ret
         result_ret].
    now rewrite Hin.
Qed.

End all_runs.

(** [main] with any other number of arguments. *)
Lemma main_not_three (argv : list string) (w : World) :
  length argv <> 3%nat ->
  exists e, (main argv w).2 = inl e
            /\ e <> SystemExit 0
            /\ fs (main argv w).1 = fs w
            /\ opened_files (main argv w).1 = opened_files w.
Proof.
  intros Hlen. destruct argv as [|prog args].
  - exists IndexError. now repeat split.
  - rewrite main_usage by (simpl in Hlen; lia).
    exists (SystemExit 1). now repeat split.
Qed.

(** ** When [pack] returns and what it raises *)

Section pack_outcomes.

Variable image : Image.

(** Loops that return have met 8-bit channels only. *)
Lemma grid_loop_returns_ok (buffer buffer' : BitArray) :
  grid_loop image buffer = inr buffer' -> image_ok image.
Proof.
  intros Hloop x y Hx Hy.
  destruct (decide (pixel_ok (data image x y))) as [Hok|Hbad]; [exact Hok |].
  rewrite (grid_loop_bad image x y buffer Hx Hy Hbad) in Hloop.
  discriminate.
Qed.

Lemma pack_bad_image : ~ image_ok image -> pack image = inl CreationError.
Proof.
  intros Hbad. unfold pack.
  destruct (grid_loop_cases image (of_bytes [])) as [-> | [buffer Hloop]];
    [reflexivity |].
  destruct Hbad. exact (grid_loop_returns_ok _ _ Hloop).
Qed.

Lemma pack_returns_ok (contents : list Byte.byte) :
  pack image = inr contents -> image_ok image.
Proof.
  unfold pack.
  destruct (grid_loop image (of_bytes [])) as [e|buffer] eqn:Hloop;
    [discriminate |].
  intros _. exact (grid_loop_returns_ok _ _ Hloop).
Qed.

(** The thirty bits of the pixel with row-major index [N]. *)
Lemma packed_bitstream_block (N : nat) :
  (N < width image * height image)%nat ->
  bits_at (30 * N) 30 (packed_bitstream image)
  = pixel_bits (data image (N mod width image) (N / width image)).
Proof.
  intros HN.
  destruct (row_major_inverse image N HN) as (Hx & Hy & HN').
  destruct (packed_bitstream_pixel image _ _ Hx Hy) as [rest Hdrop].
  unfold bits_at. rewrite HN' in Hdrop. rewrite Hdrop.
  apply take_app_length'. now rewrite pixel_bits_length.
Qed.

End pack_outcomes.

(** Two streams of [n] blocks of [k] bits with the same blocks are equal. *)
Lemma blocks_ext (k n : nat) (bits1 bits2 : BitArray) :
  length bits1 = (n * k)%nat -> length bits2 = (n * k)%nat ->
  (forall i : nat, (i < n)%nat ->
     bits_at (i * k) k bits1 = bits_at (i * k) k bits2) ->
  bits1 = bits2.
Proof.
  revert bits1 bits2. induction n as [|n IH]; intros bits1 bits2 H1 H2 Hblocks.
  - apply length_zero_iff_nil in H1, H2. now subst.
  - rewrite <- (take_drop k bits1), <- (take_drop k bits2). f_equal.
    + apply (Hblocks 0%nat). lia.
    + apply IH.
      * rewrite length_drop. lia.
      * rewrite length_drop. lia.
      * intros i Hi. specialize (Hblocks (Datatypes.S i) ltac:(lia)).
        unfold bits_at in *. rewrite !drop_drop.
        now replace (k + i * k)%nat with (Datatypes.S i * k)%nat by lia.
Qed.

(** ** Failures before the loops *)



(** X2: when the image is decoded but the second argument cannot be
    opened for writing, [main] ends in the exception of the refused
    [open], after the first status line and before the loops; the file
    system is as it was. *)
Theorem unwritable_output (prog input_path output_path : string)
    (w : World) (contents : list Byte.byte) (image : Image) :
  fs w !! input_path = Some contents ->
  decode w contents = Some image ->
  writable w output_path = false ->
  let run := main [prog; input_path; output_path] w in
  (exists e : exception, run.2 = inl e)
  /\ stdout run.1
     = stdout w
       ++ ["Input image size is " +:+ show_size (size image) +:+ " bytes."]
  /\ fs run.1 = fs w
  /\ opened_files run.1 = opened_files w ++ [input_path].
Proof.
  intros Hin Hdec Hout run. subst run.
  rewrite main_three, Hin, Hdec, Hout.
  split; [now exists PermissionError | now repeat split].
Qed.

Lemma unwritable_output_witness :
  fs world_read_only !! "in.png" = Some []
  /\ decode world_read_only [] = Some two_by_two
  /\ writable world_read_only "out.raw" = false
  /\ fs (main ["prog"; "in.png"; "out.raw"] world_read_only).1
     = fs world_read_only.
Proof.
  assert (fs world_read_only !! "in.png" = Some []) as Hin by reflexivity.
  assert (decode world_read_only [] = Some two_by_two) as Hdec
      by reflexivity.
  assert (writable world_read_only "out.raw" = false) as Hout
      by reflexivity.
  split; [exact Hin | split; [exact Hdec | split; [exact Hout |]]].
  exact (proj1 (proj2 (proj2
    (unwritable_output "prog" "in.png" "out.raw" world_read_only
       [] two_by_two Hin Hdec Hout)))).
Defined.

(** X3: whatever its arguments and however it ends, [main] changes no
    file other than the one named by its second argument. *)
Theorem other_files_untouched (argv : list string) (w : World)
    (path : string) :
  argv !! 2%nat <> Some path ->
  fs (main argv w).1 !! path = fs w !! path.
Proof.
  intros Hpath.
  destruct (decide (length argv = 3%nat)) as [Hlen|Hlen].
  - destruct argv as [|prog [|input_path [|output_path [|? ?]]]];
      try discriminate Hlen.
    assert (output_path <> path) as Hne by (intros ->; now apply Hpath).
    rewrite main_three.
    destruct (fs w !! input_path) as [contents|]; [|reflexivity].
    destruct (decode w contents) as [image|]; [|reflexivity].
    destruct (writable w output_path); [|reflexivity].
    destruct (pack image) as [e|out]; cbn; now apply lookup_insert_ne.
  - destruct (main_not_three argv w Hlen) as (e & _ & _ & Hfs & _).
    now rewrite Hfs.
Qed.

Lemma other_files_untouched_witness :
  ["prog"; "in.png"; "out.raw"] !! 2%nat <> Some "in.png"
  /\ fs (main ["prog"; "in.png"; "out.raw"] (world_with two_by_two)).1
       !! "in.png"
     = fs (world_with two_by_two) !! "in.png".
Proof.
  assert (["prog"; "in.png"; "out.raw"] !! 2%nat <> Some "in.png") as Hpath
      by (cbn; discriminate).
  split; [exact Hpath |].
  exact (other_files_untouched ["prog"; "in.png"; "out.raw"]
           (world_with two_by_two) "in.png" Hpath).
Defined.

(** ** The outcomes of the packer *)

(** X4: the conversion returns bytes exactly when every channel of the
    image is an 8-bit value and the pixel count is a multiple of 4, and
    the bytes are then those of the packed bitstream. *)
Theorem pack_returns_iff (image : Image) (contents : list Byte.byte) :
  pack image = inr contents
  <-> image_ok image
      /\ Z.of_nat (width image * height image) mod 4 = 0
      /\ contents = to_bytes (packed_bitstream image).
Proof.
  split.
  - intros Hpack. pose proof (pack_returns_ok image contents Hpack) as Hok.
    destruct (Z.eq_dec (Z.of_nat (width image * height image) mod 4) 0)
      as [Hmod|Hmod].
    + rewrite (pack_whole image Hok Hmod) in Hpack.
      injection Hpack as <-. exact (conj Hok (conj Hmod eq_refl)).
    + rewrite (pack_partial image Hok Hmod) in Hpack. discriminate.
  - intros (Hok & Hmod & ->). now apply pack_whole.
Qed.

Lemma pack_returns_iff_witness :
  pack two_by_two = inr (to_bytes (packed_bitstream two_by_two)).
Proof.
  assert (image_ok two_by_two) as Hok by sample_ok.
  assert (Z.of_nat (width two_by_two * height two_by_two) mod 4 = 0)
    as Hmod by reflexivity.
  exact (proj2 (pack_returns_iff two_by_two _)
           (conj Hok (conj Hmod eq_refl))).
Defined.

(** X5: the conversion raises only [CreationError], when a channel of a
    pixel is not an 8-bit value, and [InterpretError], when all are but
    the pixel count is not a multiple of 4.  A bad channel is reported
    whatever the pixel count, and no pixel is ever read outside the image:
    [IndexError] is not raised. *)
Theorem pack_raises_iff (image : Image) (e : exception) :
  pack image = inl e
  <-> (e = CreationError /\ ~ image_ok image)
      \/ (e = InterpretError
          /\ image_ok image
          /\ Z.of_nat (width image * height image) mod 4 <> 0).
Proof.
  split.
  - intros Hpack. unfold pack in Hpack.
    destruct (grid_loop_cases image (of_bytes [])) as [Hloop | [buffer Hloop]].
    + rewrite Hloop in Hpack. injection Hpack as <-. left.
      split; [reflexivity |]. intros Hok.
      rewrite grid_loop_ok in Hloop by assumption. discriminate.
    + pose proof (grid_loop_returns_ok image _ _ Hloop) as Hok.
      fold (pack image) in Hpack. right.
      destruct (Z.eq_dec (Z.of_nat (width image * height image) mod 4) 0)
        as [Hmod|Hmod].
      * rewrite (pack_whole image Hok Hmod) in Hpack. discriminate.
      * rewrite (pack_partial image Hok Hmod) in Hpack.
        injection Hpack as <-. exact (conj eq_refl (conj Hok Hmod)).
  - intros [(-> & Hbad) | (-> & Hok & Hmod)].
    + now apply pack_bad_image.
    + now apply pack_partial.
Qed.

Lemma pack_raises_iff_witness :
  ~ image_ok bad_red /\ pack bad_red = inl CreationError.
Proof.
  assert (~ image_ok bad_red) as Hbad.
  { intros Hok.
    assert (1 < width bad_red)%nat as Hx by (cbn; lia).
    assert (1 < height bad_red)%nat as Hy by (cbn; lia).
    destruct (Hok 1%nat 1%nat Hx Hy) as ([_ Hr] & _). cbn in Hr. lia. }
  split; [exact Hbad |].
  exact (proj2 (pack_raises_iff bad_red CreationError)
           (or_introl (conj eq_refl Hbad))).
Defined.

(** ** The whole program *)

(** X6: run as a program, the script ends with exit status 0 only if
    both libraries are installed, it is given two arguments, the first
    names a file that decodes to an image with 8-bit channels, the second
    can be opened for writing, and the pixel count is a multiple of 4; the
    output file then holds the bytes of the packed bitstream and both
    status lines are printed. *)
Theorem script_success_requires (has_PIL has_bitstring : bool)
    (argv : list string) (w : World) :
  let run := script has_PIL has_bitstring argv w in
  exit_code run.2.2 = 0 ->
  has_PIL = true /\ has_bitstring = true
  /\ exists (prog input_path output_path : string) (image : Image),
       argv = [prog; input_path; output_path]
       /\ ready input_path output_path image w
       /\ image_ok image
       /\ Z.of_nat (width image * height image) mod 4 = 0
       /\ run.2.1 = written image input_path output_path
                      (to_bytes (packed_bitstream image)) w.
Proof.
  intros run. subst run. unfold script.
  destruct has_PIL, has_bitstring; cbn [andb fst snd]; try discriminate.
  intros Hexit. split; [reflexivity | split; [reflexivity |]].
  destruct (decide (length argv = 3%nat)) as [Hlen|Hlen].
  - destruct argv as [|prog [|input_path [|output_path [|? ?]]]];
      try discriminate Hlen.
    exists prog, input_path, output_path.
    rewrite main_three in Hexit |- *.
    destruct (fs w !! input_path) as [contents|] eqn:Hin;
      [|discriminate Hexit].
    destruct (decode w contents) as [image|] eqn:Hdec;
      [|discriminate Hexit].
    destruct (writable w output_path) eqn:Hout; [|discriminate Hexit].
    destruct (pack image) as [e|out] eqn:Hpack.
    + destruct (proj1 (pack_raises_iff image e) Hpack)
        as [(-> & _) | (-> & _)]; discriminate Hexit.
    + apply pack_returns_iff in Hpack. destruct Hpack as (Hok & Hmod & ->).
      exists image. split; [reflexivity |].
      split; [split; [now exists contents | assumption] |].
      split; [exact Hok | split; [exact Hmod | reflexivity]].
  - destruct (main_not_three argv w Hlen) as (e & He & Hne & _).
    rewrite He in Hexit. destruct e; try discriminate Hexit.
    cbn in Hexit. now subst.
Qed.

Lemma script_success_requires_witness :
  exit_code
    (script true true ["prog"; "in.png"; "out.raw"]
       (world_with two_by_two)).2.2
  = 0
  /\ exists (prog input_path output_path : string) (image : Image),
       ["prog"; "in.png"; "out.raw"] = [prog; input_path; output_path]
       /\ image_ok image
       /\ Z.of_nat (width image * height image) mod 4 = 0.
Proof.
  assert (exit_code
            (script true true ["prog"; "in.png"; "out.raw"]
               (world_with two_by_two)).2.2
          = 0) as Hexit by (vm_compute; reflexivity).
  split; [exact Hexit |].
  destruct (script_success_requires true true
              ["prog"; "in.png"; "out.raw"] (world_with two_by_two) Hexit)
    as (_ & _ & prog & input_path & output_path & image
        & Hargv & _ & Hok & Hmod & _).
  exists prog, input_path, output_path, image.
  split; [exact Hargv | split; [exact Hok | exact Hmod]].
Defined.

(** X11: the image is decoded before the output is opened.  When both
    arguments name the same file, the conversion still works on the
    decoded image, and the file ends up holding the converted bytes, or
    nothing if the conversion raises: its original contents are gone
    either way. *)
Theorem in_place_conversion (prog path : string) (w : World)
    (image : Image) :
  ready path path image w ->
  let run := main [prog; path; path] w in
  match pack image with
  | inl e => run.2 = inl e /\ fs run.1 !! path = Some []
  | inr out => run.2 = inr tt /\ fs run.1 !! path = Some out
  end.
Proof.
  intros Hready run. subst run. rewrite (main_run _ _ _ _ _ Hready).
  destruct (pack image) as [e|out]; cbn;
    (split; [reflexivity | apply lookup_insert_eq]).
Qed.

Lemma in_place_conversion_witness :
  ready "in.png" "in.png" two_by_two (world_with two_by_two)
  /\ fs (main ["prog"; "in.png"; "in.png"] (world_with two_by_two)).1
       !! "in.png"
     = Some (to_bytes (packed_bitstream two_by_two)).
Proof.
  assert (ready "in.png" "in.png" two_by_two (world_with two_by_two))
    as Hready by sample_ready.
  split; [exact Hready |].
  exact (proj2 (in_place_conversion "prog" "in.png" (world_with two_by_two)
                  two_by_two Hready)).
Defined.

(** ** Reading the output back *)

Section read_back.

Variable image : Image.

(** X7: the output can be read back.  When the conversion returns bytes,
    the three 10-bit fields at row-major index [y * W + x], each divided
    by 4, are the channels of the pixel at column [x] of row [y]. *)
Theorem output_reads_back (contents : list Byte.byte) (x y : nat) :
  pack image = inr contents ->
  (x < width image)%nat -> (y < height image)%nat ->
  pixel_at contents (row_major image x y) = data image x y.
Proof.
  intros Hpack Hx Hy.
  apply pack_returns_iff in Hpack. destruct Hpack as (Hok & Hmod & ->).
  destruct (bytes_whole (packed_bitstream image)) as (_ & _ & Hbits);
    [now apply whole_bytes_iff |].
  destruct (packed_bitstream_fields image x y Hx Hy) as (Hr & Hg & Hb).
  destruct (Hok x y Hx Hy) as (Hr' & Hg' & Hb').
  unfold pixel_at, sample_at. rewrite Hbits.
  replace (10 * (3 * row_major image x y))%nat
    with (30 * row_major image x y)%nat by lia.
  replace (10 * (3 * row_major image x y + 1))%nat
    with (30 * row_major image x y + 10)%nat by lia.
  replace (10 * (3 * row_major image x y + 2))%nat
    with (30 * row_major image x y + 20)%nat by lia.
  rewrite Hr, Hg, Hb, !sample10_uint, !Z.div_mul by (assumption || lia).
  now destruct (data image x y) as [[r g] b].
Qed.

End read_back.

Lemma output_reads_back_witness :
  pack two_by_two = inr (to_bytes (packed_bitstream two_by_two))
  /\ (1 < width two_by_two)%nat /\ (0 < height two_by_two)%nat
  /\ pixel_at (to_bytes (packed_bitstream two_by_two))
       (row_major two_by_two 1 0)
     = (255, 128, 0).
Proof.
  assert (pack two_by_two = inr (to_bytes (packed_bitstream two_by_two)))
    as Hpack by reflexivity.
  assert (1 < width two_by_two)%nat as Hx by (cbn; lia).
  assert (0 < height two_by_two)%nat as Hy by (cbn; lia).
  split; [exact Hpack | split; [exact Hx | split; [exact Hy |]]].
  exact (output_reads_back two_by_two _ 1%nat 0%nat Hpack Hx Hy).
Defined.

(** X8: the conversion loses nothing.  Two images of the same dimensions
    that are converted to the same bytes have the same pixels. *)
Theorem pack_injective (image1 image2 : Image) (contents : list Byte.byte) :
  size image1 = size image2 ->
  pack image1 = inr contents ->
  pack image2 = inr contents ->
  same_pixels image1 image2.
Proof.
  intros Hsize Hpack1 Hpack2. split; [exact Hsize |].
  intros x y Hx Hy.
  rewrite <- (output_reads_back image1 contents x y Hpack1 Hx Hy).
  assert (row_major image1 x y = row_major image2 x y) as ->
      by (unfold row_major, width; now rewrite Hsize).
  apply output_reads_back; [exact Hpack2 | |];
    unfold width, height in *; now rewrite <- Hsize.
Qed.

Lemma pack_injective_witness :
  size two_by_two = size two_by_two_framed
  /\ pack two_by_two = inr (to_bytes (packed_bitstream two_by_two))
  /\ pack two_by_two_framed = inr (to_bytes (packed_bitstream two_by_two))
  /\ same_pixels two_by_two two_by_two_framed.
Proof.
  assert (size two_by_two = size two_by_two_framed) as Hsize by reflexivity.
  assert (pack two_by_two = inr (to_bytes (packed_bitstream two_by_two)))
    as Hpack1 by reflexivity.
  assert (pack two_by_two_framed
          = inr (to_bytes (packed_bitstream two_by_two)))
    as Hpack2 by reflexivity.
  split; [exact Hsize | split; [exact Hpack1 | split; [exact Hpack2 |]]].
  exact (pack_injective two_by_two two_by_two_framed _ Hsize Hpack1 Hpack2).
Defined.

(** ** The output carries no dimensions *)

Lemma same_sequence_sym (image1 image2 : Image) :
  same_sequence image1 image2 -> same_sequence image2 image1.
Proof.
  intros [Hcount Hdata]. split; [now symmetry |].
  intros N HN. symmetry. apply Hdata. now rewrite Hcount.
Qed.

Lemma same_sequence_ok (image1 image2 : Image) :
  same_sequence image1 image2 -> image_ok image1 -> image_ok image2.
Proof.
  intros [Hcount Hdata] Hok x y Hx Hy.
  assert (row_major image2 x y < width image1 * height image1)%nat as HN
      by (rewrite Hcount; unfold row_major; nia).
  destruct (row_major_inverse image1 _ HN) as (Hx1 & Hy1 & _).
  specialize (Hdata _ HN). unfold row_major in Hdata at 3 4.
  rewrite (Nat.add_comm _ x), Nat.Div0.mod_add, Nat.div_add in Hdata by lia.
  rewrite (Nat.mod_small x), (Nat.div_small x) in Hdata by assumption.
  rewrite Nat.add_0_l in Hdata. rewrite <- Hdata. now apply Hok.
Qed.

Lemma same_sequence_bitstream (image1 image2 : Image) :
  same_sequence image1 image2 ->
  packed_bitstream image1 = packed_bitstream image2.
Proof.
  intros [Hcount Hdata].
  apply (blocks_ext 30 (width image1 * height image1)).
  - apply packed_bitstream_length.
  - rewrite Hcount. apply packed_bitstream_length.
  - intros N HN. rewrite (Nat.mul_comm N 30).
    rewrite !packed_bitstream_block by (try rewrite <- Hcount; assumption).
    now rewrite Hdata.
Qed.

(** X9: the bytes depend on the pixels in row-major order only, not on
    the shape of the image.  Two images with the same number of pixels
    and the same pixels in row-major order are converted to the same
    bytes, or raise the same exception. *)
Theorem shape_independent (image1 image2 : Image) :
  same_sequence image1 image2 -> pack image1 = pack image2.
Proof.
  intros Hsame.
  pose proof (same_sequence_bitstream _ _ Hsame) as Hbits.
  pose proof (same_sequence_ok _ _ Hsame) as H12.
  pose proof (same_sequence_ok _ _ (same_sequence_sym _ _ Hsame)) as H21.
  destruct Hsame as [Hcount _].
  destruct (pack image1) as [e|contents] eqn:Hpack; symmetry.
  - apply pack_raises_iff. apply pack_raises_iff in Hpack.
    rewrite <- Hcount.
    destruct Hpack as [(-> & Hbad) | (-> & Hok & Hmod)]; [left | right].
    + split; [reflexivity |]. intros Hok. apply Hbad, H21, Hok.
    + exact (conj eq_refl (conj (H12 Hok) Hmod)).
  - apply pack_returns_iff. apply pack_returns_iff in Hpack.
    rewrite <- Hcount, <- Hbits.
    destruct Hpack as (Hok & Hmod & ->).
    exact (conj (H12 Hok) (conj Hmod eq_refl)).
Qed.

Lemma shape_independent_witness :
  same_sequence two_by_two four_by_one
  /\ pack two_by_two = pack four_by_one.
Proof.
  assert (same_sequence two_by_two four_by_one) as Hsame.
  { split; [reflexivity |].
    intros [|[|[|[|?]]]]; cbn; intros ?; try lia; reflexivity. }
  split; [exact Hsame |].
  exact (shape_independent two_by_two four_by_one Hsame).
Defined.
